(** * The Trustroots user model (app/models/user.server.model.js)

    A shallow embedding of the Mongoose user schema's validators, its
    pre-save hook, the [hashPassword] / [authenticate] instance methods and
    the [findUniqueUsername] static, followed by the properties proved
    about them.

    Conventions of the embedding.
    - A JavaScript string is a [string]: a sequence of code units, here
      restricted to the units below 256 (the Latin-1 range).
    - A JavaScript value used as a condition is represented by its
      truthiness, a [bool]: a string is truthy when it is not empty, a
      number when it is not zero, an object (a [Date], a [Buffer]) always,
      [undefined] and [null] never.
    - Node's [crypto] module is an interface the model is parametric in
      (class [Crypto]); the bytes [crypto.randomBytes] returns are an
      explicit argument of the pre-save hook.
    - The storage behind [findOne] is an explicit lookup function; the
      asynchronous callback chain of [findUniqueUsername] is sequential and
      is embedded as a recursive function with a fuel bound that also
      records the sequence of lookups. *)

From Stdlib Require Import Ascii.
From stdpp Require Import gmap strings list pretty.

(** ** JavaScript strings *)

Module JsString.

(** Truthiness of a string: [""] is the only falsy string. *)
Definition truthy (s : string) : bool :=
  match s with "" => false | String _ _ => true end.

Definition code (c : ascii) : nat := Ascii.nat_of_ascii c.

Definition in_range (lo hi : nat) (c : ascii) : bool :=
  (lo <=? code c) && (code c <=? hi).

(** [WhiteSpace] and [LineTerminator] code units below 256, the ones
    [String.prototype.trim] strips: TAB, LF, VT, FF, CR, SP and NBSP. *)
Definition is_white (c : ascii) : bool :=
  in_range 9 13 c || (code c =? 32) || (code c =? 160).

(** Code units with a lower-case counterpart: A-Z, and in the Latin-1
    range U+00C0-U+00DE without the multiplication sign U+00D7. *)
Definition is_upper (c : ascii) : bool :=
  in_range 65 90 c || (in_range 192 222 c && negb (code c =? 215)).

Definition lower_char (c : ascii) : ascii :=
  if is_upper c then Ascii.ascii_of_nat (code c + 32) else c.

(** [s.toLowerCase()] *)
Fixpoint toLowerCase (s : string) : string :=
  match s with
  | "" => ""
  | String c s' => String (lower_char c) (toLowerCase s')
  end.

Fixpoint trimStart (s : string) : string :=
  match s with
  | "" => ""
  | String c s' => if is_white c then trimStart s' else s
  end.

Fixpoint trimEnd (s : string) : string :=
  match s with
  | "" => ""
  | String c s' =>
      match trimEnd s' with
      | "" => if is_white c then "" else String c ""
      | r => String c r
      end
  end.

(** [s.trim()] *)
Definition trim (s : string) : string := trimEnd (trimStart s).

(** [xs.indexOf(s) < 0] negated: [s] is strictly equal to an element. *)
Definition indexOf_found (xs : list string) (s : string) : bool :=
  existsb (String.eqb s) xs.

Fixpoint startsWith (p s : string) : bool :=
  match p, s with
  | "", _ => true
  | String a p', String b s' => Ascii.eqb a b && startsWith p' s'
  | String _ _, "" => false
  end.

(** [s.includes(p)]: [p] occurs in [s] as a substring. *)
Fixpoint includes (p s : string) : bool :=
  startsWith p s ||
  match s with
  | "" => false
  | String _ s' => includes p s'
  end.

Fixpoint all_chars (p : ascii → bool) (s : string) : bool :=
  match s with
  | "" => true
  | String c s' => p c && all_chars p s'
  end.

End JsString.

(** ** Regular expressions

    The two regular expressions of [validateUsername] are anchored at both
    ends ([^] ... [$], no flags), so [RegExp.prototype.test] holds exactly
    when the whole string belongs to the language of the expression in
    between. The syntax below covers what the two expressions use; the
    matcher works by derivatives. *)

Module Regex.

Inductive regex : Type :=
| Void : regex
| Eps : regex
| Class (p : ascii → bool) : regex
| Cat (r1 r2 : regex) : regex
| Alt (r1 r2 : regex) : regex
| Star (r : regex) : regex.

(** [r?], [r+], [r{n}], [r{0,k}] and [r{m,n}] *)
Definition Opt (r : regex) : regex := Alt r Eps.
Definition Plus (r : regex) : regex := Cat r (Star r).

Fixpoint Repeat (n : nat) (r : regex) : regex :=
  match n with
  | 0 => Eps
  | S n' => Cat r (Repeat n' r)
  end.

Fixpoint UpTo (k : nat) (r : regex) : regex :=
  match k with
  | 0 => Eps
  | S k' => Opt (Cat r (UpTo k' r))
  end.

Definition Range (m n : nat) (r : regex) : regex :=
  Cat (Repeat m r) (UpTo (n - m) r).

(** The language of an expression. *)
Inductive matches : regex → string → Prop :=
| m_eps : matches Eps ""
| m_class p c : p c = true → matches (Class p) (String c "")
| m_cat r1 r2 s1 s2 :
    matches r1 s1 → matches r2 s2 → matches (Cat r1 r2) (s1 +:+ s2)
| m_alt_l r1 r2 s : matches r1 s → matches (Alt r1 r2) s
| m_alt_r r1 r2 s : matches r2 s → matches (Alt r1 r2) s
| m_star_nil r : matches (Star r) ""
| m_star_cons r s1 s2 :
    matches r s1 → matches (Star r) s2 → matches (Star r) (s1 +:+ s2).

Fixpoint nullable (r : regex) : bool :=
  match r with
  | Void => false
  | Eps => true
  | Class _ => false
  | Cat r1 r2 => nullable r1 && nullable r2
  | Alt r1 r2 => nullable r1 || nullable r2
  | Star _ => true
  end.

Fixpoint deriv (c : ascii) (r : regex) : regex :=
  match r with
  | Void => Void
  | Eps => Void
  | Class p => if p c then Eps else Void
  | Cat r1 r2 =>
      Alt (Cat (deriv c r1) r2) (if nullable r1 then deriv c r2 else Void)
  | Alt r1 r2 => Alt (deriv c r1) (deriv c r2)
  | Star r' => Cat (deriv c r') (Star r')
  end.

(** [/^r$/.test(s)] *)
Fixpoint test (r : regex) (s : string) : bool :=
  match s with
  | "" => nullable r
  | String c s' => test (deriv c r) s'
  end.

End Regex.

(** ** The user record *)

(** A [Date], as milliseconds since the epoch. *)
Definition Date : Type := Z.

(** A Node [Buffer]. *)
Definition Buffer : Type := list Byte.byte.

(** What the [salt] path of a document can hold when it is set: a string
    (as read back from storage) or the [Buffer] the pre-save hook assigns. *)
Inductive Salt : Type :=
| SaltString (s : string)
| SaltBuffer (b : Buffer).

(** The paths of [UserSchema] that the functions of the model read or write.
    The remaining paths (display name, tagline, description, birthdate,
    gender, languages, locations, provider payloads, roles, seen, created,
    avatar source, newsletter, reset token and expiry) are plain data that
    no function of the file touches. A path without a schema default is
    [None] ([undefined]) until it is set. *)
Record User : Type := mkUser {
  firstName : string;
  lastName : string;
  email : string;
  username : option string;
  password : string;
  emailHash : option string;
  salt : option Salt;
  provider : option string;
  updated : option Date
}.

(** [new User()]: every path at its schema default. *)
Definition defaultUser : User :=
  {| firstName := ""; lastName := ""; email := ""; username := None;
     password := ""; emailHash := None; salt := None; provider := None;
     updated := None |}.

Definition set_firstName (v : string) (u : User) : User :=
  mkUser v (lastName u) (email u) (username u) (password u) (emailHash u)
         (salt u) (provider u) (updated u).
Definition set_lastName (v : string) (u : User) : User :=
  mkUser (firstName u) v (email u) (username u) (password u) (emailHash u)
         (salt u) (provider u) (updated u).
Definition set_email (v : string) (u : User) : User :=
  mkUser (firstName u) (lastName u) v (username u) (password u) (emailHash u)
         (salt u) (provider u) (updated u).
Definition set_username (v : option string) (u : User) : User :=
  mkUser (firstName u) (lastName u) (email u) v (password u) (emailHash u)
         (salt u) (provider u) (updated u).
Definition set_password (v : string) (u : User) : User :=
  mkUser (firstName u) (lastName u) (email u) (username u) v (emailHash u)
         (salt u) (provider u) (updated u).
Definition set_emailHash (v : option string) (u : User) : User :=
  mkUser (firstName u) (lastName u) (email u) (username u) (password u) v
         (salt u) (provider u) (updated u).
Definition set_salt (v : option Salt) (u : User) : User :=
  mkUser (firstName u) (lastName u) (email u) (username u) (password u)
         (emailHash u) v (provider u) (updated u).
Definition set_provider (v : option string) (u : User) : User :=
  mkUser (firstName u) (lastName u) (email u) (username u) (password u)
         (emailHash u) (salt u) v (updated u).
Definition set_updated (v : option Date) (u : User) : User :=
  mkUser (firstName u) (lastName u) (email u) (username u) (password u)
         (emailHash u) (salt u) (provider u) v.

(** Truthiness of [this.salt] and of [this.updated]. *)
Definition salt_truthy (s : option Salt) : bool :=
  match s with
  | None => false
  | Some (SaltString v) => JsString.truthy v
  | Some (SaltBuffer _) => true
  end.

Definition date_truthy (d : option Date) : bool :=
  match d with None => false | Some _ => true end.

(** [this.provider !== 'local'] *)
Definition provider_not_local (u : User) : bool :=
  match provider u with
  | Some p => negb (String.eqb p "local")
  | None => true
  end.

(** ** Validators *)

(** [validateLocalStrategyProperty], with [this = u]:
    [(this.provider !== 'local' && !this.updated) || property.length] *)
Definition validateLocalStrategyProperty (u : User) (property : string) : bool :=
  (provider_not_local u && negb (date_truthy (updated u)))
  || negb (String.length property =? 0).

(** [validateLocalStrategyPassword]:
    [this.provider !== 'local' || (password && password.length >= 8)] *)
Definition validateLocalStrategyPassword (u : User) (password : string) : bool :=
  provider_not_local u
  || (JsString.truthy password && (8 <=? String.length password)).

(** The character class [[a-z0-9.\-_]]. *)
Definition username_char (c : ascii) : bool :=
  JsString.in_range 97 122 c || JsString.in_range 48 57 c
  || Ascii.eqb c "." || Ascii.eqb c "-" || Ascii.eqb c "_".

Definition is_dot (c : ascii) : bool := Ascii.eqb c ".".
Definition not_dot (c : ascii) : bool := negb (Ascii.eqb c ".").

(** [/^[a-z0-9.\-_]{3,32}$/] *)
Definition usernameRegex : Regex.regex :=
  Regex.Range 3 32 (Regex.Class username_char).

(** [/^([^.]+\.?)$/] *)
Definition dotsRegex : Regex.regex :=
  Regex.Cat (Regex.Plus (Regex.Class not_dot)) (Regex.Opt (Regex.Class is_dot)).

Definition illegalUsernames : list string :=
  ["trustroots"; "trust"; "roots"; "re"; "re:"; "fwd"; "fwd:"; "reply";
   "admin"; "administrator"; "user"; "password"; "username"; "unknown";
   "anonymous"; "home"; "signup"; "signin"; "edit"; "settings"; "password";
   "username"; "user"; " demo"; "test"].

(** [validateUsername]. [&&] binds tighter than [||], so the body reads
    [this.provider !== 'local' ||
       ((username && usernameRegex.test(username)
                  && illegalUsernames.indexOf(username) < 0)
        && dotsRegex.test(username))]. *)
Definition validateUsername (u : User) (username : string) : bool :=
  provider_not_local u
  || ((JsString.truthy username
       && Regex.test usernameRegex username
       && negb (JsString.indexOf_found illegalUsernames username))
      && Regex.test dotsRegex username).

(** The rule as the documentation of [validateUsername] words it: 3 to 32
    characters, only [a-z0-9_-.], not an illegal username, no two
    consecutive dots. *)
Definition validateUsername_documented (username : string) : bool :=
  (3 <=? String.length username) && (String.length username <=? 32)
  && JsString.all_chars username_char username
  && negb (JsString.indexOf_found illegalUsernames username)
  && negb (JsString.includes ".." username).

(** The validators each schema path runs on its own value. *)
Definition valid_firstName (u : User) : bool :=
  validateLocalStrategyProperty u (firstName u).
Definition valid_lastName (u : User) : bool :=
  validateLocalStrategyProperty u (lastName u).
Definition valid_email (u : User) : bool :=
  validateLocalStrategyProperty u (email u).

(** [match: /.+\@.+\..+/] on the [email] path: the expression is not
    anchored, so it is tested against any substring; [.] is any code unit
    but a line terminator. *)
Definition any_char (c : ascii) : bool := true.
Definition dot_char (c : ascii) : bool :=
  negb ((JsString.code c =? 10) || (JsString.code c =? 13)).
Definition is_at (c : ascii) : bool := Ascii.eqb c "@".

Definition emailRegex : Regex.regex :=
  let some := Regex.Plus (Regex.Class dot_char) in
  let anywhere := Regex.Star (Regex.Class any_char) in
  Regex.Cat anywhere
    (Regex.Cat some (Regex.Cat (Regex.Class is_at)
       (Regex.Cat some (Regex.Cat (Regex.Class is_dot)
          (Regex.Cat some anywhere))))).

(** Mongoose's built-in [match] validator lets the empty string through and
    tests everything else; [required] asks for a value that is neither
    [undefined] nor the empty string. *)
Definition match_email (v : string) : bool :=
  negb (JsString.truthy v) || Regex.test emailRegex v.

Definition required (v : option string) : bool :=
  match v with Some s => JsString.truthy s | None => false end.

(** Validation of a document: every validator the schema declares, each on
    the value of its own path. A custom validator is not run on a path that
    is [undefined]. *)
Definition validate (u : User) : bool :=
  valid_firstName u && valid_lastName u
  && valid_email u && match_email (email u)
  && required (username u)
  && match username u with Some n => validateUsername u n | None => true end
  && validateLocalStrategyPassword u (password u)
  && required (provider u).

(** ** Node's crypto module *)

(** The functions of [crypto] the model calls.
    - [pbkdf2Sync password salt iterations keylen] is the derived key;
    - [toString_base64 b] is [b.toString('base64')];
    - [md5_hex s] is [crypto.createHash('md5').update(s).digest('hex')]. *)
Class Crypto : Type := {
  pbkdf2Sync : string → Salt → N → nat → Buffer;
  toString_base64 : Buffer → string;
  md5_hex : string → string
}.

(** Sizes of the real functions' results: a derived key has the length
    asked for, and base64 writes four characters for every three bytes,
    padding the last group. *)
Class CryptoSizes (crypto : Crypto) : Prop := {
  pbkdf2Sync_length p s it k : length (pbkdf2Sync p s it k) = k;
  toString_base64_length b :
    String.length (toString_base64 b) = 4 * ((length b + 2) / 3)
}.

(** ** Instance methods and the pre-save hook *)

Section Codec.
Context {crypto : Crypto}.

(** [UserSchema.methods.hashPassword], with [this = u]. *)
Definition hashPassword (u : User) (password : string) : string :=
  match salt u with
  | Some s =>
      if salt_truthy (Some s) && JsString.truthy password
      then toString_base64 (pbkdf2Sync password s 10000%N 64)
      else password
  | None => password
  end.

(** [UserSchema.methods.authenticate] *)
Definition authenticate (u : User) (candidate : string) : bool :=
  String.eqb (password u) (hashPassword u candidate).

(** The hook [UserSchema.pre('save', ...)]. [rnd] is the result of
    [crypto.randomBytes(16)]; encoding it in base64 and decoding that
    again, as the source does, gives the same bytes back. The assignment
    to [this.salt] is taken as a plain assignment: the document holds the
    [Buffer], which is truthy whatever its bytes are. *)
Definition pre_save (rnd : Buffer) (u : User) : User :=
  let u1 :=
    if JsString.truthy (password u) && (6 <? String.length (password u))
    then
      let u' := set_salt (Some (SaltBuffer rnd)) u in
      set_password (hashPassword u' (password u')) u'
    else u in
  set_emailHash
    (Some (md5_hex (JsString.toLowerCase (JsString.trim (email u1))))) u1.

(** [doc.save()]: validation runs first; a document that fails it is
    rejected and the hook does not run. *)
Definition save (rnd : Buffer) (u : User) : option User :=
  if validate u then Some (pre_save rnd u) else None.

(** Assignments to the paths of a document, each through the setters its
    schema path declares ([trim], [lowercase]), and [save]. [salt] and
    [emailHash] are written by the hook only. *)
Inductive Op : Type :=
| SetFirstName (v : string)
| SetLastName (v : string)
| SetEmail (v : string)
| SetUsername (v : string)
| SetPassword (v : string)
| SetProvider (v : string)
| SetUpdated (d : Date)
| Save (rnd : Buffer).

Definition apply_op (u : User) (o : Op) : User :=
  match o with
  | SetFirstName v => set_firstName (JsString.trim v) u
  | SetLastName v => set_lastName (JsString.trim v) u
  | SetEmail v => set_email (JsString.toLowerCase (JsString.trim v)) u
  | SetUsername v => set_username (Some (JsString.trim (JsString.toLowerCase v))) u
  | SetPassword v => set_password v u
  | SetProvider v => set_provider (Some v) u
  | SetUpdated d => set_updated (Some d) u
  | Save rnd => default u (save rnd u)
  end.

Definition run (ops : list Op) (u : User) : User := foldl apply_op u ops.

(** The documents the operations of the model lead to from [new User()]. *)
Inductive reachable : User → Prop :=
| reachable_new : reachable defaultUser
| reachable_op u o : reachable u → reachable (apply_op u o).

(** Among them, the ones a successful [save] has just produced. *)
Inductive saved : User → Prop :=
| saved_intro u rnd u' : reachable u → save rnd u = Some u' → saved u'.

(** The relation between [salt] and [password]: with a salt, the password
    is the hash derived from some raw password with that salt; without
    one, the password is not a derived hash at all. *)
Definition derived_with (s : Salt) (pw : string) : Prop :=
  ∃ raw, pw = toString_base64 (pbkdf2Sync raw s 10000%N 64).

Definition salt_hash_invariant (u : User) : Prop :=
  match salt u with
  | Some s => derived_with s (password u)
  | None => ¬ ∃ s, derived_with s (password u)
  end.

End Codec.

(** ** The username allocator *)

(** What [findOne] hands to its callback: an error, or the document found
    ([None] for [null]). *)
Inductive FindOne : Type :=
| FindError
| FindUser (user : option User).

(** The storage as the allocator sees it: the answer to
    [findOne({username: name}, ...)]. *)
Definition Storage : Type := string → FindOne.

(** A collection of documents that answers every lookup without error. *)
Definition findOne_in (users : list User) : Storage :=
  λ name, FindUser (List.find (λ u, bool_decide (username u = Some name)) users).

(** [suffix || ''], as [+] appends it to a string: a number is written in
    decimal. *)
Definition suffix_text (suffix : option nat) : string :=
  match suffix with
  | None | Some 0 => ""
  | Some n => pretty n
  end.

(** [(suffix || 0) + 1]. A JavaScript number counts exactly up to 2^53;
    the allocator stays below the number of stored documents (see
    [findUniqueUsername_least_free]), so the suffix is a [nat]. *)
Definition suffix_next (suffix : option nat) : nat :=
  match suffix with
  | None => 1
  | Some n => n + 1
  end.

(** [UserSchema.statics.findUniqueUsername]. The result is the list of names
    looked up, in order, and the argument the callback is called with
    ([None] for [null]); [None] when [fuel] lookups did not reach the
    callback. *)
Fixpoint findUniqueUsername (fuel : nat) (findOne : Storage)
    (username : string) (suffix : option nat)
    : option (list string * option string) :=
  match fuel with
  | 0 => None
  | S fuel' =>
      let possibleUsername := username +:+ suffix_text suffix in
      match findOne possibleUsername with
      | FindError => Some ([possibleUsername], None)
      | FindUser None => Some ([possibleUsername], Some possibleUsername)
      | FindUser (Some _) =>
          match findUniqueUsername fuel' findOne username
                  (Some (suffix_next suffix)) with
          | Some (probes, r) => Some (possibleUsername :: probes, r)
          | None => None
          end
      end
  end.

(** The [n]-th name the allocator tries for [base]: [base] itself, then
    [base] followed by 1, 2, 3, ... *)
Definition candidate (base : string) (n : nat) : string :=
  base +:+ suffix_text (Some n).

Definition taken (users : list User) (name : string) : Prop :=
  ∃ u, u ∈ users ∧ username u = Some name.

(** An absent suffix behaves as the suffix 0. *)
Definition suffix_num (suffix : option nat) : nat := default 0 suffix.

(** ** A stand-in for Node's crypto

    A small deterministic instance of [Crypto] on which the model runs on
    concrete inputs. Its results have the sizes of the real functions'
    results (a key of the length asked for, base64 text); it has none of
    their strength, and no property below relies on it except to exhibit
    concrete documents. *)

Module Sample.

Definition salt_bytes (s : Salt) : Buffer :=
  match s with
  | SaltString v => String.list_byte_of_string v
  | SaltBuffer b => b
  end.

Definition derive (password : string) (s : Salt) (iterations : N)
    (keylen : nat) : Buffer :=
  take keylen
    (String.list_byte_of_string password ++ salt_bytes s
     ++ replicate keylen Byte.x00).

Definition alphabet : string :=
  "ABCDEFGHIJKLMNOPQRSTUVWXYZabcdefghijklmnopqrstuvwxyz0123456789+/".

Definition digit (n : nat) : ascii :=
  default "="%char (String.get n alphabet).

Fixpoint base64 (b : Buffer) : string :=
  match b with
  | [] => ""
  | [x] =>
      let x := Byte.to_nat x in
      String (digit (x / 4)) (String (digit (x mod 4 * 16)) "==")
  | [x; y] =>
      let x := Byte.to_nat x in
      let y := Byte.to_nat y in
      String (digit (x / 4))
        (String (digit (x mod 4 * 16 + y / 16))
           (String (digit (y mod 16 * 4)) "="))
  | x :: y :: z :: rest =>
      let x := Byte.to_nat x in
      let y := Byte.to_nat y in
      let z := Byte.to_nat z in
      String (digit (x / 4))
        (String (digit (x mod 4 * 16 + y / 16))
           (String (digit (y mod 16 * 4 + z / 64))
              (String (digit (z mod 64)) (base64 rest))))
  end.

Definition checksum (s : string) : string :=
  "md5:" +:+ s.

Definition crypto : Crypto :=
  {| pbkdf2Sync := derive; toString_base64 := base64; md5_hex := checksum |}.

End Sample.

(** ** Example documents and storages *)

(** A document of the local provider, and one of a federated provider that
    has been updated before. *)
Definition local_user : User := set_provider (Some "local") defaultUser.

Definition federated_user : User := set_provider (Some "facebook") defaultUser.

Definition updated_federated_user : User :=
  set_updated (Some 1420070400000%Z) federated_user.

(** A document that carries a user name. *)
Definition named (name : string) : User :=
  set_username (Some name) defaultUser.

(** A storage that is out of reach. *)
Definition failing_storage : Storage := λ _, FindError.

(** A federated account sets a password, is saved, clears the password
    and is saved again: the second save keeps the salt of the first
    next to a password that is no hash. *)
Definition stale_salt_ops (rnd1 rnd2 : Buffer) : list Op :=
  [SetProvider "twitter"; SetUsername "bob";
   SetPassword "correcthorsebattery"; Save rnd1;
   SetPassword ""; Save rnd2].

(** Random bytes, as [crypto.randomBytes(16)] returns them. *)
Definition sample_rnd : Buffer :=
  [Byte.x3a; Byte.x91; Byte.x07; Byte.xc4; Byte.x5e; Byte.xb2; Byte.x18;
   Byte.xf0; Byte.x66; Byte.x2d; Byte.x9b; Byte.x73; Byte.xe5; Byte.x0c;
   Byte.xa8; Byte.x4f].

Definition sample_rnd' : Buffer :=
  [Byte.x10; Byte.x32; Byte.x54; Byte.x76; Byte.x98; Byte.xba; Byte.xdc;
   Byte.xfe; Byte.x01; Byte.x23; Byte.x45; Byte.x67; Byte.x89; Byte.xab;
   Byte.xcd; Byte.xef].

(** The document that scenario ends in, on the stand-in for [crypto]. *)
Definition stale_salt_user : User :=
  run (crypto := Sample.crypto) (stale_salt_ops sample_rnd sample_rnd') defaultUser.

(** A local account saved once with a password. *)
Definition hashed_user : User :=
  run (crypto := Sample.crypto)
    [SetProvider "local"; SetUsername "alice"; SetFirstName "Alice";
     SetLastName "Liddell"; SetEmail "Alice@Example.com ";
     SetPassword "correcthorsebattery"; Save sample_rnd]
    defaultUser.

(** ** Definitions for the further properties *)

(** The entries of [illegalUsernames] that can make a difference: without
    the duplicates, and without the four entries that [usernameRegex]
    rejects anyway ("re" is too short; "re:", "fwd:" and " demo" have a
    character outside the class). *)
Definition effectiveIllegalUsernames : list string :=
  ["trustroots"; "trust"; "roots"; "fwd"; "reply"; "admin"; "administrator";
   "user"; "password"; "username"; "unknown"; "anonymous"; "home"; "signup";
   "signin"; "edit"; "settings"; "test"].

(** The four entries the character-class expression rejects. *)
Definition deadIllegalUsernames : list string := ["re"; "re:"; "fwd:"; " demo"].

(** A string that does not begin with white space. *)
Definition starts_clean (s : string) : bool :=
  match s with "" => true | String c _ => negb (JsString.is_white c) end.

(** The hash the hook stores for a raw password and the random bytes
    [rnd]: [crypto.pbkdf2Sync(raw, salt, 10000, 64).toString('base64')]. *)
Definition stored_hash {crypto : Crypto} (raw : string) (rnd : Buffer) : string :=
  toString_base64 (pbkdf2Sync raw (SaltBuffer rnd) 10000%N 64).


(** * Properties *)

(** ** Strings *)

Module JsStringFacts.
  Import JsString.

Lemma app_cons (c : ascii) (s t : string) : String c s +:+ t = String c (s +:+ t).
Proof. reflexivity. Qed.

Lemma app_nil_l (s : string) : "" +:+ s = s.
Proof. reflexivity. Qed.

Lemma app_nil_r (s : string) : s +:+ "" = s.
Proof. induction s as [|c s IH]; [done|]. by rewrite app_cons, IH. Qed.

Lemma app_assoc (s t r : string) : (s +:+ t) +:+ r = s +:+ (t +:+ r).
Proof. induction s as [|c s IH]; [done|]. by rewrite !app_cons, IH. Qed.

Lemma app_eq_nil (s t : string) : s +:+ t = "" → s = "" ∧ t = "".
Proof. destruct s; [done|]. by rewrite app_cons. Qed.

Lemma length_app (s t : string) :
  String.length (s +:+ t) = String.length s + String.length t.
Proof. induction s as [|c s IH]; [done|]. rewrite app_cons. simpl. by rewrite IH. Qed.

Lemma all_chars_app (p : ascii → bool) (s t : string) :
  all_chars p (s +:+ t) = all_chars p s && all_chars p t.
Proof.
  induction s as [|c s IH]; [done|].
  rewrite app_cons. simpl. by rewrite IH, andb_assoc.
Qed.

Lemma truthy_length (s : string) : truthy s = negb (String.length s =? 0).
Proof. by destruct s. Qed.

End JsStringFacts.

(** ** The matcher decides the language *)

Module RegexFacts.
  Import Regex JsString JsStringFacts.

Lemma nullable_spec (r : regex) : nullable r = true ↔ matches r "".
Proof.
  induction r as [| |p|r1 IH1 r2 IH2|r1 IH1 r2 IH2|r IH]; simpl.
  - split; [done|]. inversion 1.
  - split; [constructor|done].
  - split; [done|]. inversion 1.
  - rewrite andb_true_iff, IH1, IH2. split.
    + intros [H1 H2]. change "" with ("" +:+ ""). by constructor.
    + intros Hm. inv Hm.
      match goal with E : _ +:+ _ = "" |- _ => apply app_eq_nil in E as [-> ->] end.
      done.
  - rewrite orb_true_iff, IH1, IH2. split.
    + intros [?|?]; [by apply m_alt_l|by apply m_alt_r].
    + intros Hm. inv Hm; auto.
  - split; [constructor|done].
Qed.

Lemma deriv_sound (c : ascii) (r : regex) (s : string) :
  matches (deriv c r) s → matches r (String c s).
Proof.
  revert s.
  induction r as [| |p|r1 IH1 r2 IH2|r1 IH1 r2 IH2|r IH]; simpl; intros s Hm.
  - inv Hm.
  - inv Hm.
  - destruct (p c) eqn:Hp; inv Hm. by constructor.
  - inv Hm.
    + match goal with M : matches (Cat _ _) _ |- _ => inv M end.
      rewrite <- app_cons. constructor; auto.
    + destruct (nullable r1) eqn:Hn.
      * change (String c s) with ("" +:+ String c s).
        constructor; [by apply nullable_spec|auto].
      * match goal with M : matches Void _ |- _ => inv M end.
  - inv Hm; [apply m_alt_l|apply m_alt_r]; auto.
  - inv Hm. rewrite <- app_cons. constructor; auto.
Qed.

Lemma deriv_complete (c : ascii) (r : regex) (s : string) :
  matches r (String c s) → matches (deriv c r) s.
Proof.
  intros Hm. remember (String c s) as t eqn:Ht. revert s Ht.
  induction Hm as [|p a Hp|r1 r2 s1 s2 H1 IH1 H2 IH2|r1 r2 t H1 IH1
                  |r1 r2 t H2 IH2|r|r s1 s2 H1 IH1 H2 IH2];
    intros s Ht; simpl.
  - done.
  - injection Ht as -> <-. rewrite Hp. constructor.
  - destruct s1 as [|a s1'].
    + apply m_alt_r. apply nullable_spec in H1. rewrite H1. by apply IH2.
    + rewrite app_cons in Ht. injection Ht as -> <-.
      apply m_alt_l. constructor; auto.
  - apply m_alt_l; auto.
  - apply m_alt_r; auto.
  - done.
  - destruct s1 as [|a s1'].
    + by apply IH2.
    + rewrite app_cons in Ht. injection Ht as -> <-.
      constructor; auto.
Qed.

Lemma test_spec (r : regex) (s : string) : test r s = true ↔ matches r s.
Proof.
  revert r. induction s as [|c s IH]; intros r; simpl.
  - apply nullable_spec.
  - rewrite IH. split; [apply deriv_sound|apply deriv_complete].
Qed.

Lemma matches_eps_inv (s : string) : matches Eps s → s = "".
Proof. intros Hm. by inv Hm. Qed.

Lemma matches_class_inv (p : ascii → bool) (s : string) :
  matches (Class p) s → ∃ c, s = String c "" ∧ p c = true.
Proof. intros Hm. inv Hm. eauto. Qed.

Lemma matches_cat_inv (r1 r2 : regex) (s : string) :
  matches (Cat r1 r2) s →
  ∃ s1 s2, s = s1 +:+ s2 ∧ matches r1 s1 ∧ matches r2 s2.
Proof. intros Hm. inv Hm. eauto. Qed.

Lemma matches_alt_inv (r1 r2 : regex) (s : string) :
  matches (Alt r1 r2) s → matches r1 s ∨ matches r2 s.
Proof. intros Hm. inv Hm; auto. Qed.

Lemma matches_class_cons (p : ascii → bool) (r : regex) (c : ascii) (s : string) :
  p c = true → matches r s → matches (Cat (Class p) r) (String c s).
Proof.
  intros Hc Hs. change (String c s) with (String c "" +:+ s).
  constructor; [by constructor|done].
Qed.

End RegexFacts.

(** ** The two expressions of [validateUsername] *)

Module UsernameRegexFacts.
  Import Regex JsString JsStringFacts RegexFacts.

Lemma split_at (m : nat) (s : string) :
  m ≤ String.length s →
  ∃ s1 s2, s = s1 +:+ s2 ∧ String.length s1 = m.
Proof.
  revert s. induction m as [|m IH]; intros s Hm.
  - by exists "", s.
  - destruct s as [|c s]; simpl in Hm; [lia|].
    destruct (IH s) as (s1 & s2 & -> & Hl); [lia|].
    exists (String c s1), s2. simpl. by rewrite Hl.
Qed.

Lemma matches_star_class (p : ascii → bool) (s : string) :
  matches (Star (Class p)) s ↔ all_chars p s = true.
Proof.
  split.
  - intros Hm. remember (Star (Class p)) as r eqn:Hr.
    induction Hm as [| | | | | |r s1 s2 H1 _ H2 IH2]; try discriminate; [done|].
    injection Hr as ->. apply matches_class_inv in H1 as (c & -> & Hc).
    rewrite app_cons, app_nil_l. simpl. rewrite andb_true_iff. auto.
  - induction s as [|c s IH]; simpl; [constructor|].
    rewrite andb_true_iff. intros [Hc Hs].
    change (String c s) with (String c "" +:+ s).
    constructor; [by constructor|auto].
Qed.

Lemma matches_repeat_class (p : ascii → bool) (n : nat) (s : string) :
  matches (Repeat n (Class p)) s ↔ String.length s = n ∧ all_chars p s = true.
Proof.
  revert s. induction n as [|n IH]; intros s; simpl.
  - split.
    + by intros ->%matches_eps_inv.
    + intros [Hl _]. destruct s; [constructor|done].
  - split.
    + intros (s1 & s2 & -> & (c & -> & Hc)%matches_class_inv & [<- Ha]%IH)%matches_cat_inv.
      rewrite app_cons, app_nil_l. simpl. rewrite andb_true_iff. auto.
    + intros [Hl Ha]. destruct s as [|c s]; [done|]. simpl in *.
      apply andb_true_iff in Ha as [Hc Ha].
      apply matches_class_cons; [done|]. apply IH. split; [lia|done].
Qed.

Lemma matches_upto_class (p : ascii → bool) (k : nat) (s : string) :
  matches (UpTo k (Class p)) s ↔ String.length s ≤ k ∧ all_chars p s = true.
Proof.
  revert s. induction k as [|k IH]; intros s; simpl.
  - split.
    + by intros ->%matches_eps_inv.
    + intros [Hl _]. destruct s; [constructor|simpl in Hl; lia].
  - unfold Opt. split.
    + intros [Hm| ->%matches_eps_inv]%matches_alt_inv.
      * apply matches_cat_inv in Hm
          as (s1 & s2 & -> & (c & -> & Hc)%matches_class_inv & [Hl Ha]%IH).
        rewrite app_cons, app_nil_l. simpl. rewrite andb_true_iff.
        split; [lia|auto].
      * simpl. split; [lia|done].
    + intros [Hl Ha]. destruct s as [|c s]; [apply m_alt_r; constructor|].
      simpl in *. apply andb_true_iff in Ha as [Hc Ha].
      apply m_alt_l. apply matches_class_cons; [done|].
      apply IH. split; [lia|done].
Qed.

Lemma matches_range_class (p : ascii → bool) (m n : nat) (s : string) :
  m ≤ n →
  matches (Range m n (Class p)) s ↔
    (m ≤ String.length s ∧ String.length s ≤ n) ∧ all_chars p s = true.
Proof.
  intros Hmn. unfold Range. split.
  - intros (s1 & s2 & -> & [H1 A1]%matches_repeat_class
            & [H2 A2]%matches_upto_class)%matches_cat_inv.
    rewrite length_app, all_chars_app, A1, A2. split; [lia|done].
  - intros [[Hlo Hhi] Ha].
    destruct (split_at m s Hlo) as (s1 & s2 & -> & Hl).
    rewrite length_app in Hhi. rewrite all_chars_app in Ha.
    apply andb_true_iff in Ha as [A1 A2].
    constructor.
    + by apply matches_repeat_class.
    + apply matches_upto_class. split; [lia|done].
Qed.

(** [usernameRegex.test(s)]: between 3 and 32 characters, all of them in
    [[a-z0-9.\-_]]. *)
Lemma usernameRegex_spec (s : string) :
  test usernameRegex s = true ↔
    (3 ≤ String.length s ∧ String.length s ≤ 32)
    ∧ all_chars username_char s = true.
Proof.
  rewrite test_spec. unfold usernameRegex. apply matches_range_class. lia.
Qed.

(** [dotsRegex.test(s)]: a non-empty run of characters other than the dot,
    followed by at most one dot, and nothing after it. *)
Lemma dotsRegex_spec (s : string) :
  test dotsRegex s = true ↔
    ∃ t, truthy t = true ∧ all_chars not_dot t = true
         ∧ (s = t ∨ s = t +:+ ".").
Proof.
  rewrite test_spec. unfold dotsRegex, Plus, Opt. split.
  - intros (s1 & s2 & -> & Hrun & Hopt)%matches_cat_inv.
    apply matches_cat_inv in Hrun
      as (a & t & -> & (c & -> & Hc)%matches_class_inv & Ht%matches_star_class).
    rewrite app_cons, app_nil_l.
    exists (String c t). split; [done|].
    split; [simpl; by rewrite andb_true_iff|].
    apply matches_alt_inv in Hopt as [(d & -> & Hd)%matches_class_inv| ->%matches_eps_inv].
    + right. apply Ascii.eqb_eq in Hd as ->. done.
    + left. apply app_nil_r.
  - intros (t & Ht & Ha & Hs).
    destruct t as [|c t]; [done|]. simpl in Ha.
    apply andb_true_iff in Ha as [Hc Ha].
    assert (matches (Cat (Class not_dot) (Star (Class not_dot))) (String c t)) as Hrun.
    { apply matches_class_cons; [done|]. by apply matches_star_class. }
    destruct Hs as [->| ->].
    + rewrite <- (app_nil_r (String c t)).
      constructor; [done|]. apply m_alt_r. constructor.
    + constructor; [done|]. apply m_alt_l. by constructor.
Qed.

(** A string the dots expression accepts has no two consecutive dots. *)
Lemma includes_dots_after_run (t r : string) :
  all_chars not_dot t = true →
  includes ".." (t +:+ r) = includes ".." r.
Proof.
  induction t as [|c t IH]; [done|].
  intros [Hc Ha]%andb_true_iff. rewrite app_cons.
  change (includes ".." (String c (t +:+ r)))
    with ((Ascii.eqb "." c && startsWith "." (t +:+ r))
          || includes ".." (t +:+ r)).
  rewrite (IH Ha). unfold not_dot in Hc.
  apply negb_true_iff in Hc. rewrite Ascii.eqb_sym in Hc.
  by rewrite Hc.
Qed.

Lemma dotsRegex_no_consecutive_dots (s : string) :
  test dotsRegex s = true → includes ".." s = false.
Proof.
  intros (t & _ & Ha & [->| ->])%dotsRegex_spec.
  - rewrite <- (app_nil_r t). by rewrite includes_dots_after_run.
  - by rewrite includes_dots_after_run.
Qed.

End UsernameRegexFacts.

(** ** Validators *)

Module ValidatorFacts.
  Import Regex JsString JsStringFacts RegexFacts UsernameRegexFacts.

Lemma provider_not_local_true (u : User) :
  provider_not_local u = true ↔ provider u ≠ Some "local".
Proof.
  unfold provider_not_local. destruct (provider u) as [p|]; [|done].
  rewrite negb_true_iff, String.eqb_neq. split; congruence.
Qed.

Lemma provider_not_local_false (u : User) :
  provider_not_local u = false ↔ provider u = Some "local".
Proof.
  unfold provider_not_local. destruct (provider u) as [p|]; [|done].
  rewrite negb_false_iff, String.eqb_eq. split; congruence.
Qed.

Lemma date_truthy_false (d : option Date) : date_truthy d = false ↔ d = None.
Proof. by destruct d. Qed.

Lemma usernameRegex_test (s : string) :
  test usernameRegex s =
    (3 <=? String.length s) && (String.length s <=? 32)
    && all_chars username_char s.
Proof.
  apply eq_true_iff_eq. rewrite usernameRegex_spec.
  rewrite !andb_true_iff, !Nat.leb_le. tauto.
Qed.

(** For the local provider, [validateUsername] is the documented rule and
    the dots expression together. *)
Lemma validateUsername_local (u : User) (s : string) :
  provider u = Some "local" →
  validateUsername u s = validateUsername_documented s && test dotsRegex s.
Proof.
  intros Hp%provider_not_local_false.
  unfold validateUsername, validateUsername_documented.
  rewrite Hp, usernameRegex_test. simpl.
  destruct (test dotsRegex s) eqn:Hd.
  - rewrite (dotsRegex_no_consecutive_dots s Hd), !andb_true_r.
    destruct s as [|c s]; [done|]. done.
  - by rewrite !andb_false_r.
Qed.

(** What the code accepts, the documented rule accepts too. *)
Lemma validateUsername_within_documented (u : User) (s : string) :
  provider u = Some "local" →
  validateUsername u s = true → validateUsername_documented s = true.
Proof.
  intros Hp. rewrite (validateUsername_local u s Hp).
  by intros [? _]%andb_true_iff.
Qed.

(** The other examples of the rule are rejected, as documented. *)
Lemma validateUsername_rejected_examples :
  validateUsername local_user "ab" = false
  ∧ validateUsername local_user "a..b" = false
  ∧ validateUsername local_user "admin" = false.
Proof. by vm_compute. Qed.

(** A user of another provider is not checked at all. *)
Lemma validateUsername_not_local (u : User) (s : string) :
  provider u ≠ Some "local" → validateUsername u s = true.
Proof.
  intros Hp%provider_not_local_true. unfold validateUsername. by rewrite Hp.
Qed.

(** C1. The documentation of [validateUsername] asks for 3 to 32 characters
    of [a-z0-9_-.], no illegal username and no two consecutive dots, and
    says that a single dot is fine. The name [a.b] meets every point of that
    rule, and [validateUsername] rejects it for a local user: the dots
    expression allows a dot only as the last character. *)
Theorem validateUsername_rejects_single_dot :
  validateUsername_documented "a.b" = true
  ∧ validateUsername local_user "a.b" = false.
Proof. by vm_compute. Qed.

(** C5, as amended. [validateLocalStrategyProperty] passes exactly when the
    provider is not local and the document has never been updated
    ([updated] is unset), or the value is not empty; it is the validator of
    the paths [firstName], [lastName] and [email]. *)
Theorem validateLocalStrategyProperty_iff (u : User) (v : string) :
  (validateLocalStrategyProperty u v = true ↔
     (provider u ≠ Some "local" ∧ updated u = None) ∨ v ≠ "")
  ∧ valid_firstName u = validateLocalStrategyProperty u (firstName u)
  ∧ valid_lastName u = validateLocalStrategyProperty u (lastName u)
  ∧ valid_email u = validateLocalStrategyProperty u (email u).
Proof.
  split; [|done]. unfold validateLocalStrategyProperty.
  rewrite orb_true_iff, andb_true_iff, !negb_true_iff.
  rewrite provider_not_local_true, date_truthy_false, Nat.eqb_neq.
  assert (String.length v ≠ 0 ↔ v ≠ "") as ->; [|done].
  destruct v; simpl; split; congruence.
Qed.

(** C5, as claimed, fails: a federated document whose [updated] is set
    meets the claimed condition, and its empty value does not pass. *)
Lemma validateLocalStrategyProperty_updated_federated_fails :
  (provider updated_federated_user ≠ Some "local"
   ∧ is_Some (updated updated_federated_user))
  ∧ validateLocalStrategyProperty updated_federated_user "" = false.
Proof. repeat split; [done|by eexists]. Qed.

(** C6. For a provider other than local, empty [firstName], [lastName] and
    [email] pass validation while [updated] is unset, and fail once it is
    set. *)
Theorem empty_properties_pass_until_updated (u : User) :
  provider u ≠ Some "local" →
  firstName u = "" → lastName u = "" → email u = "" →
  (updated u = None →
     valid_firstName u = true ∧ valid_lastName u = true
     ∧ valid_email u = true)
  ∧ (is_Some (updated u) →
     valid_firstName u = false ∧ valid_lastName u = false
     ∧ valid_email u = false).
Proof.
  intros Hp%provider_not_local_true Hf Hl He.
  unfold valid_firstName, valid_lastName, valid_email,
    validateLocalStrategyProperty.
  rewrite Hf, Hl, He, Hp. split.
  - by intros ->.
  - by intros [d ->].
Qed.

Lemma empty_properties_pass_until_updated_witness :
  (valid_firstName federated_user = true
   ∧ valid_lastName federated_user = true
   ∧ valid_email federated_user = true)
  ∧ (valid_firstName updated_federated_user = false
     ∧ valid_lastName updated_federated_user = false
     ∧ valid_email updated_federated_user = false).
Proof.
  split.
  - apply (empty_properties_pass_until_updated federated_user); done.
  - apply (empty_properties_pass_until_updated updated_federated_user);
      [done..|by eexists].
Defined.

End ValidatorFacts.

(** ** The username allocator *)

Module AllocatorFacts.
  Import JsString JsStringFacts.

(** The decimal form of a number is never empty. *)
Lemma pretty_N_go_length (x : N) (s : string) :
  String.length s ≤ String.length (pretty_N_go x s).
Proof.
  revert s. induction (N.lt_wf_0 x) as [x _ IH]. intros s.
  destruct (decide (x = 0%N)) as [->|Hx].
  - by rewrite pretty_N_go_0.
  - rewrite pretty_N_go_step by lia.
    specialize (IH (x `div` 10)%N).
    etrans; [|apply IH; apply N.div_lt; lia]. simpl. lia.
Qed.

Lemma pretty_nat_nonempty (n : nat) : pretty n ≠ "".
Proof.
  unfold pretty, pretty_nat, pretty, pretty_N.
  case_decide; [done|].
  rewrite pretty_N_go_step by lia. intros Heq.
  pose proof (pretty_N_go_length (N.of_nat n `div` 10)
    (String (pretty_N_char (N.of_nat n `mod` 10)) "")) as Hlen.
  rewrite Heq in Hlen. simpl in Hlen. lia.
Qed.

Lemma candidate_0 (base : string) : candidate base 0 = base.
Proof. unfold candidate. simpl. apply app_nil_r. Qed.

Lemma candidate_S (base : string) (n : nat) :
  candidate base (S n) = base +:+ pretty (S n).
Proof. done. Qed.

Lemma suffix_text_inj : Inj (=) (=) (λ n, suffix_text (Some n)).
Proof.
  intros [|n] [|m] Heq; simpl in Heq; [done|..].
  - by destruct (pretty_nat_nonempty (S m)).
  - by destruct (pretty_nat_nonempty (S n)).
  - by apply (inj pretty) in Heq.
Qed.

Lemma candidate_inj (base : string) : Inj (=) (=) (candidate base).
Proof.
  intros n m Heq. unfold candidate in Heq.
  apply (inj (String.app base)) in Heq. by apply suffix_text_inj.
Qed.

Lemma possibleUsername_candidate (base : string) (suffix : option nat) :
  base +:+ suffix_text suffix = candidate base (suffix_num suffix).
Proof. by destruct suffix as [[|n]|]. Qed.

Lemma suffix_next_num (suffix : option nat) :
  suffix_next suffix = S (suffix_num suffix).
Proof. destruct suffix; simpl; lia. Qed.

Section Probing.
Variable findOne : Storage.
Variable base : string.

Lemma findUniqueUsername_step (fuel : nat) (suffix : option nat) :
  findUniqueUsername (S fuel) findOne base suffix =
    let name := candidate base (suffix_num suffix) in
    match findOne name with
    | FindError => Some ([name], None)
    | FindUser None => Some ([name], Some name)
    | FindUser (Some _) =>
        match findUniqueUsername fuel findOne base
                (Some (S (suffix_num suffix))) with
        | Some (probes, r) => Some (name :: probes, r)
        | None => None
        end
    end.
Proof.
  simpl. by rewrite possibleUsername_candidate, suffix_next_num.
Qed.

(** The lookups up to the first candidate, from [m] on, that no document
    carries: found, found, ..., then the candidate [m + d]. *)
Lemma probes_until_free (d : nat) :
  ∀ (fuel : nat) (suffix : option nat),
    (∀ j, j < d → ∃ u,
       findOne (candidate base (suffix_num suffix + j)) = FindUser (Some u)) →
    findOne (candidate base (suffix_num suffix + d)) = FindUser None →
    d < fuel →
    findUniqueUsername fuel findOne base suffix =
      Some (candidate base <$> seq (suffix_num suffix) (S d),
            Some (candidate base (suffix_num suffix + d))).
Proof.
  induction d as [|d IH]; intros fuel suffix Hfound Hfree Hfuel;
    (destruct fuel as [|fuel]; [lia|]);
    rewrite findUniqueUsername_step; cbv zeta.
  - rewrite Nat.add_0_r in *. by rewrite Hfree.
  - destruct (Hfound 0) as [u Hu]; [lia|].
    rewrite Nat.add_0_r in Hu. rewrite Hu.
    rewrite (IH fuel (Some (S (suffix_num suffix)))); simpl.
    + by rewrite Nat.add_succ_r.
    + intros j Hj. destruct (Hfound (S j)) as [u' Hu']; [lia|].
      exists u'. by rewrite Nat.add_succ_r in Hu'.
    + by rewrite Nat.add_succ_r in Hfree.
    + lia.
Qed.


End Probing.

(** Lookups in a collection of documents. *)
Lemma findOne_in_spec (users : list User) (name : string) :
  (taken users name ∧ ∃ u, findOne_in users name = FindUser (Some u))
  ∨ (¬ taken users name ∧ findOne_in users name = FindUser None).
Proof.
  unfold findOne_in, taken.
  destruct (find _ users) as [u|] eqn:Hfind.
  - left. apply find_some in Hfind as [Hin Hu].
    apply bool_decide_eq_true in Hu. apply list_elem_of_In in Hin. eauto.
  - right. split; [|done]. intros (u & Hin & Hu).
    apply list_elem_of_In in Hin.
    pose proof (find_none _ _ Hfind u Hin) as Hno. simpl in Hno.
    by apply bool_decide_eq_false in Hno.
Qed.

(** Candidates are pairwise different names, so a collection in which the
    first [n] of them are all taken holds at least [n] documents. *)
Lemma all_taken_bound (users : list User) (base : string) (n : nat) :
  (∀ j, j < n → taken users (candidate base j)) → n ≤ length users.
Proof.
  intros Htaken.
  pose (names := (λ j, Some (candidate base j)) <$> seq 0 n).
  assert (names ⊆+ username <$> users) as Hsub.
  { apply NoDup_submseteq.
    - apply NoDup_fmap_2; [|apply NoDup_seq].
      intros i j [= Hij]. by apply candidate_inj in Hij.
    - intros x (j & -> & Hj)%list_elem_of_fmap.
      apply elem_of_seq in Hj.
      destruct (Htaken j) as (u & Hin & Hu); [lia|].
      apply list_elem_of_fmap. eauto. }
  apply submseteq_length in Hsub.
  unfold names in Hsub. by rewrite !length_fmap, length_seq in Hsub.
Qed.

Lemma least_free_below (users : list User) (base : string) (n : nat) :
  (∀ j, j < n → taken users (candidate base j))
  ∨ (∃ d, d < n ∧ ¬ taken users (candidate base d)
          ∧ ∀ j, j < d → taken users (candidate base j)).
Proof.
  induction n as [|n [IH|(d & Hd & Hfree & Hmin)]].
  - left. intros j Hj. lia.
  - destruct (findOne_in_spec users (candidate base n)) as [[Ht _]|[Hf _]].
    + left. intros j Hj. destruct (decide (j = n)) as [->|]; [done|].
      apply IH. lia.
    + right. exists n. split; [lia|]. split; [done|]. exact IH.
  - right. exists d. split; [lia|]. done.
Qed.

(** Termination and result of the allocator on an error-free collection:
    there is a least candidate that is free, its index is at most the
    number of documents, and any fuel above the index returns it after
    the lookups of the candidates before it, in order. *)
Lemma findUniqueUsername_least_free (users : list User) (base : string) :
  ∃ d, d ≤ length users
    ∧ ¬ taken users (candidate base d)
    ∧ (∀ j, j < d → taken users (candidate base j))
    ∧ ∀ fuel, d < fuel →
        findUniqueUsername fuel (findOne_in users) base None =
          Some (candidate base <$> seq 0 (S d), Some (candidate base d)).
Proof.
  destruct (least_free_below users base (S (length users)))
    as [Hall|(d & Hd & Hfree & Hmin)].
  - apply all_taken_bound in Hall. lia.
  - exists d. split; [lia|]. split; [done|]. split; [done|].
    intros fuel Hfuel.
    apply (probes_until_free (findOne_in users) base d fuel None); [| |done].
    + intros j Hj. simpl.
      destruct (findOne_in_spec users (candidate base j)) as [[_ Hu]|[Hf _]];
        [done|]. by destruct Hf; apply Hmin.
    + simpl.
      by destruct (findOne_in_spec users (candidate base d)) as [[Ht _]|[_ Hn]].
Qed.

Lemma candidate_positive_fmap (base : string) (n : nat) :
  candidate base <$> seq 1 n = (λ k, base +:+ pretty k) <$> seq 1 n.
Proof.
  apply list_fmap_ext. intros i k Hk.
  apply lookup_seq in Hk as [-> _]. done.
Qed.

(** C2. On a collection that answers every lookup, [findUniqueUsername]
    returns the base name when no document carries it; otherwise it returns
    the base name followed by the least positive number [n] for which that
    name is free, after looking up the base name and the names with
    1, 2, ..., [n], in this order. The number [n] is at most the number of
    documents, and any fuel above it is enough. *)
Theorem findUniqueUsername_first_free (users : list User) (base : string) :
  (¬ taken users base →
     ∀ fuel, 0 < fuel →
       findUniqueUsername fuel (findOne_in users) base None =
         Some ([base], Some base))
  ∧ (taken users base →
     ∃ n, 0 < n ∧ n ≤ length users
       ∧ ¬ taken users (base +:+ pretty n)
       ∧ (∀ j, 0 < j < n → taken users (base +:+ pretty j))
       ∧ ∀ fuel, n < fuel →
           findUniqueUsername fuel (findOne_in users) base None =
             Some (base :: ((λ k, base +:+ pretty k) <$> seq 1 n),
                   Some (base +:+ pretty n))).
Proof.
  destruct (findUniqueUsername_least_free users base)
    as (d & Hlen & Hfree & Hmin & Hrun).
  split.
  - intros Hbase fuel Hfuel.
    destruct d as [|d].
    + rewrite (Hrun fuel Hfuel). simpl. by rewrite candidate_0.
    + destruct Hbase. rewrite <- (candidate_0 base). apply Hmin. lia.
  - intros Hbase. destruct d as [|d].
    { by rewrite candidate_0 in Hfree. }
    exists (S d). split; [lia|]. split; [done|]. split; [done|].
    split.
    + intros [|j] Hj; [lia|]. apply (Hmin (S j)). lia.
    + intros fuel Hfuel. rewrite (Hrun fuel Hfuel).
      change (seq 0 (S (S d))) with (0 :: seq 1 (S d)).
      rewrite fmap_cons, candidate_0, candidate_positive_fmap. done.
Qed.

(** The two scenarios of the allocator. *)
Example findUniqueUsername_alice :
  findUniqueUsername 4
    (findOne_in [named "alice"; named "alice1"; named "alice2"]) "alice" None
  = Some (["alice"; "alice1"; "alice2"; "alice3"], Some "alice3").
Proof. by vm_compute. Qed.

Example findUniqueUsername_bob :
  findUniqueUsername 1
    (findOne_in [named "alice"; named "alice1"; named "alice2"]) "bob" None
  = Some (["bob"], Some "bob").
Proof. by vm_compute. Qed.

(** C9. When the lookup of the name built from the base name and the
    suffix reports an error, the callback is called with [null]: the
    allocator stops there, with that single lookup, and hands out no
    name. *)
Theorem findUniqueUsername_error_null
    (findOne : Storage) (base : string) (suffix : option nat) (fuel : nat) :
  findOne (base +:+ suffix_text suffix) = FindError →
  0 < fuel →
  findUniqueUsername fuel findOne base suffix =
    Some ([base +:+ suffix_text suffix], None).
Proof.
  intros Herr Hfuel. destruct fuel as [|fuel]; [lia|].
  simpl. by rewrite Herr.
Qed.

Lemma findUniqueUsername_error_null_witness :
  findUniqueUsername 1 failing_storage "alice" (Some 2)
  = Some (["alice2"], None).
Proof.
  apply (findUniqueUsername_error_null failing_storage "alice" (Some 2) 1);
    [reflexivity|lia].
Defined.

End AllocatorFacts.

(** ** The stand-in for crypto has the sizes of the real one *)

Module SampleFacts.
Import Sample.

Lemma derive_length (p : string) (s : Salt) (it : N) (k : nat) :
  length (derive p s it k) = k.
Proof.
  unfold derive. rewrite length_take, !length_app, length_replicate. lia.
Qed.

Lemma base64_length_upto (n : nat) :
  ∀ b : Buffer, length b ≤ n →
    String.length (base64 b) = 4 * ((length b + 2) / 3).
Proof.
  induction (lt_wf n) as [n _ IH]. intros b Hb.
  destruct b as [|x [|y [|z rest]]]; [done..|].
  cbn [base64 String.length length].
  rewrite (IH (length rest)); [|simpl in Hb; lia|done].
  replace (S (S (S (length rest))) + 2) with (length rest + 2 + 1 * 3) by lia.
  rewrite Nat.div_add by done. lia.
Qed.

Lemma base64_length (b : Buffer) :
  String.length (base64 b) = 4 * ((length b + 2) / 3).
Proof. by apply (base64_length_upto (length b)). Qed.

Lemma sizes : CryptoSizes crypto.
Proof. split; [apply derive_length|apply base64_length]. Qed.

End SampleFacts.

(** ** Normalising the e-mail address *)

Module NormaliseFacts.
  Import JsString.

Lemma is_white_lower_char (c : ascii) : is_white (lower_char c) = is_white c.
Proof. destruct c as [[] [] [] [] [] [] [] []]; reflexivity. Qed.

Lemma toLowerCase_empty (s : string) : toLowerCase s = "" ↔ s = "".
Proof. by destruct s. Qed.

Lemma trimStart_toLowerCase (s : string) :
  trimStart (toLowerCase s) = toLowerCase (trimStart s).
Proof.
  induction s as [|c s IH]; [done|]. simpl.
  rewrite is_white_lower_char. by destruct (is_white c).
Qed.

Lemma trimEnd_toLowerCase (s : string) :
  trimEnd (toLowerCase s) = toLowerCase (trimEnd s).
Proof.
  induction s as [|c s IH]; [done|]. simpl.
  rewrite IH, is_white_lower_char.
  destruct (trimEnd s) as [|d r]; simpl; [|done].
  by destruct (is_white c).
Qed.

(** Trimming and lower-casing commute: neither turns white space into
    anything else, nor anything else into white space. *)
Lemma trim_toLowerCase (s : string) :
  trim (toLowerCase s) = toLowerCase (trim s).
Proof.
  unfold trim. by rewrite trimStart_toLowerCase, trimEnd_toLowerCase.
Qed.

End NormaliseFacts.

(** ** The credential codec and the pre-save hook *)

Module CodecFacts.
  Import JsString JsStringFacts NormaliseFacts.

Section Codec.
Context {crypto : Crypto}.

(** Whether the hook hashes: [this.password && this.password.length > 6]. *)
Lemma hook_condition (pw : string) :
  truthy pw && (6 <? String.length pw) = (6 <? String.length pw).
Proof. by destruct pw. Qed.

Lemma pre_save_hashing (rnd : Buffer) (u : User) :
  6 < String.length (password u) →
  pre_save rnd u =
    set_emailHash (Some (md5_hex (toLowerCase (trim (email u)))))
      (set_password
         (toString_base64
            (pbkdf2Sync (password u) (SaltBuffer rnd) 10000%N 64))
         (set_salt (Some (SaltBuffer rnd)) u)).
Proof.
  intros Hlen. unfold pre_save. rewrite hook_condition.
  apply Nat.ltb_lt in Hlen. rewrite Hlen.
  unfold hashPassword. simpl.
  destruct (password u) as [|c pw] eqn:Hpw; [done|]. done.
Qed.

Lemma pre_save_not_hashing (rnd : Buffer) (u : User) :
  String.length (password u) ≤ 6 →
  pre_save rnd u =
    set_emailHash (Some (md5_hex (toLowerCase (trim (email u))))) u.
Proof.
  intros Hlen. unfold pre_save. rewrite hook_condition.
  apply Nat.ltb_ge in Hlen. by rewrite Hlen.
Qed.

(** C3. When the password of the document is longer than 6 characters,
    the hook replaces the salt, whatever it was, by the fresh random
    bytes and the password by the hash derived from it with that salt;
    when the password is empty or at most 6 characters long, the hook
    leaves both the salt and the password as they are. *)
Theorem pre_save_password_salt (rnd : Buffer) (u : User) :
  (6 < String.length (password u) →
     salt (pre_save rnd u) = Some (SaltBuffer rnd)
     ∧ password (pre_save rnd u) =
         toString_base64
           (pbkdf2Sync (password u) (SaltBuffer rnd) 10000%N 64))
  ∧ (String.length (password u) ≤ 6 →
     salt (pre_save rnd u) = salt u
     ∧ password (pre_save rnd u) = password u).
Proof.
  split; intros Hlen.
  - by rewrite (pre_save_hashing rnd u Hlen).
  - by rewrite (pre_save_not_hashing rnd u Hlen).
Qed.

(** C7. A raw password longer than 6 characters that goes through the
    hook is accepted by [authenticate] afterwards: the hook stores the key
    derived with the fresh salt, and [authenticate] derives the same key
    again from the same password and salt. *)
Theorem authenticate_after_pre_save (rnd : Buffer) (u : User) (raw : string) :
  6 < String.length raw →
  authenticate (pre_save rnd (set_password raw u)) raw = true.
Proof.
  intros Hlen. rewrite pre_save_hashing by done.
  unfold authenticate, hashPassword. simpl.
  destruct raw as [|c raw]; [simpl in Hlen; lia|].
  simpl. apply String.eqb_refl.
Qed.

(** C8. Every run of the hook sets [emailHash] to the MD5 digest, in
    hexadecimal, of the e-mail address trimmed and in lower case (in
    either order); what [emailHash] held before plays no part; and the
    addresses [User@Example.com ] and [user@example.com] get the same
    [emailHash]. *)
Theorem pre_save_emailHash (rnd rnd' : Buffer) (u u' : User) :
  emailHash (pre_save rnd u)
    = Some (md5_hex (toLowerCase (trim (email u))))
  ∧ emailHash (pre_save rnd u)
    = Some (md5_hex (trim (toLowerCase (email u))))
  ∧ (∀ h, emailHash (pre_save rnd (set_emailHash h u))
          = emailHash (pre_save rnd u))
  ∧ emailHash (pre_save rnd (set_email "User@Example.com " u))
    = emailHash (pre_save rnd' (set_email "user@example.com" u')).
Proof.
  assert (∀ r v, emailHash (pre_save r v)
                 = Some (md5_hex (toLowerCase (trim (email v))))) as Hhash.
  { intros r v. unfold pre_save. by destruct (_ && _). }
  split; [apply Hhash|]. split; [by rewrite Hhash, trim_toLowerCase|].
  split; [intros h; by rewrite !Hhash|]. by rewrite !Hhash.
Qed.

(** C10. [hashPassword] returns the candidate unchanged on a document
    without a salt (absent; the empty string, as falsy, counts the same),
    and returns the empty candidate unchanged whatever the salt;
    [authenticate] is then the comparison of the stored password with the
    candidate itself, and accepts the empty candidate on a document with
    no salt and an empty password. *)
Theorem hashPassword_passthrough (u : User) (candidate : string) :
  (salt_truthy (salt u) = false →
     hashPassword u candidate = candidate
     ∧ authenticate u candidate = String.eqb (password u) candidate)
  ∧ (hashPassword u "" = ""
     ∧ authenticate u "" = String.eqb (password u) "")
  ∧ (salt u = None → password u = "" → authenticate u "" = true).
Proof.
  assert (hashPassword u "" = "") as Hempty.
  { unfold hashPassword. destruct (salt u); [|done].
    by rewrite andb_false_r. }
  unfold authenticate. split; [|split].
  - intros Hsalt. unfold hashPassword.
    destruct (salt u) as [s|]; [|done]. by rewrite Hsalt.
  - by rewrite Hempty.
  - intros _ ->. by rewrite Hempty.
Qed.

(** *** Salt and hash over the life of a document *)

Lemma reachable_run (ops : list Op) (u : User) :
  reachable u → reachable (run ops u).
Proof.
  revert u. induction ops as [|o ops IH]; intros u Hu; [done|].
  apply IH. by constructor.
Qed.

Section Sizes.
Context {sizes : CryptoSizes crypto}.

(** A derived hash is the base64 text of 64 bytes: 88 characters. *)
Lemma derived_length (s : Salt) (pw : string) :
  derived_with s pw → String.length pw = 88.
Proof.
  intros [raw ->].
  by rewrite toString_base64_length, pbkdf2Sync_length.
Qed.

Lemma salt_kept_without_hash (rnd1 rnd2 : Buffer) :
  let u := run (stale_salt_ops rnd1 rnd2) defaultUser in
  saved u ∧ salt u = Some (SaltBuffer rnd1) ∧ password u = ""
  ∧ ¬ salt_hash_invariant u.
Proof.
  set (before := run [SetProvider "twitter"; SetUsername "bob";
                      SetPassword "correcthorsebattery"; Save rnd1;
                      SetPassword ""] defaultUser).
  assert (save rnd2 before = Some (run (stale_salt_ops rnd1 rnd2) defaultUser))
    as Hsave by done.
  cbv zeta. split; [|split; [done|split; [done|]]].
  - apply (saved_intro before rnd2); [|done].
    by apply reachable_run, reachable_new.
  - unfold salt_hash_invariant.
    change (salt (run (stale_salt_ops rnd1 rnd2) defaultUser))
      with (Some (SaltBuffer rnd1)).
    change (password (run (stale_salt_ops rnd1 rnd2) defaultUser)) with "".
    by intros Hd%derived_length.
Qed.

(** C4, as amended. Right after a successful save of a document reached
    from [new User()] by assignments and saves: without a salt, the
    password is not a derived hash; and a password longer than 6
    characters is the hash derived with the salt of the document. So
    the relation between salt and hash holds unless a salt is kept
    next to a password of at most 6 characters. *)
Theorem saved_salt_hash (u : User) :
  saved u →
  (salt u = None → ¬ ∃ s, derived_with s (password u))
  ∧ (6 < String.length (password u) →
     ∃ s, salt u = Some s ∧ derived_with s (password u))
  ∧ (salt_hash_invariant u
     ∨ (is_Some (salt u) ∧ String.length (password u) ≤ 6)).
Proof.
  intros [u0 rnd u' _ Hsave]. unfold save in Hsave.
  destruct (validate u0); [|done]. injection Hsave as <-.
  assert ((salt (pre_save rnd u0) = None
             → String.length (password (pre_save rnd u0)) ≤ 6)
          ∧ (6 < String.length (password (pre_save rnd u0)) →
             ∃ s, salt (pre_save rnd u0) = Some s
                  ∧ derived_with s (password (pre_save rnd u0))))
    as [Hnone Hlong].
  { destruct (decide (6 < String.length (password u0))) as [Hlen|Hlen].
    - rewrite (pre_save_hashing rnd u0 Hlen). simpl. split; [done|].
      intros _. eexists. split; [done|]. by eexists.
    - rewrite (pre_save_not_hashing rnd u0) by lia. simpl.
      split; [lia|]. intros ?. lia. }
  split; [|split; [done|]].
  - intros Hsalt [s Hd%derived_length]. specialize (Hnone Hsalt). lia.
  - unfold salt_hash_invariant.
    destruct (salt (pre_save rnd u0)) as [s|] eqn:Hsalt.
    + destruct (decide (6 < String.length (password (pre_save rnd u0))))
        as [Hlen|Hlen].
      * left. destruct (Hlong Hlen) as (s' & [= <-] & Hd). done.
      * right. split; [by eexists|lia].
    + left. intros [s Hd%derived_length]. specialize (Hnone eq_refl). lia.
Qed.

End Sizes.

End Codec.

Lemma pre_save_password_salt_witness :
  (salt (pre_save (crypto := Sample.crypto) sample_rnd
           (set_password "correcthorsebattery" defaultUser))
     = Some (SaltBuffer sample_rnd)
   ∧ password (pre_save (crypto := Sample.crypto) sample_rnd
                 (set_password "correcthorsebattery" defaultUser))
     = Sample.base64
         (Sample.derive "correcthorsebattery" (SaltBuffer sample_rnd)
            10000%N 64))
  ∧ (salt (pre_save (crypto := Sample.crypto) sample_rnd
             (set_password "secret" defaultUser)) = None
     ∧ password (pre_save (crypto := Sample.crypto) sample_rnd
                   (set_password "secret" defaultUser)) = "secret").
Proof.
  split.
  - apply (pre_save_password_salt (crypto := Sample.crypto) sample_rnd
             (set_password "correcthorsebattery" defaultUser)).
    simpl. lia.
  - apply (pre_save_password_salt (crypto := Sample.crypto) sample_rnd
             (set_password "secret" defaultUser)).
    simpl. lia.
Defined.

Lemma authenticate_after_pre_save_witness :
  authenticate (crypto := Sample.crypto)
    (pre_save (crypto := Sample.crypto) sample_rnd
       (set_password "correcthorsebattery" defaultUser))
    "correcthorsebattery" = true.
Proof.
  apply (authenticate_after_pre_save (crypto := Sample.crypto)).
  simpl. lia.
Defined.

Lemma hashPassword_passthrough_witness :
  (hashPassword (crypto := Sample.crypto) defaultUser "secret" = "secret"
   ∧ authenticate (crypto := Sample.crypto) defaultUser "secret"
     = String.eqb (password defaultUser) "secret")
  ∧ authenticate (crypto := Sample.crypto) defaultUser "" = true.
Proof.
  split.
  - by apply (hashPassword_passthrough (crypto := Sample.crypto) defaultUser "secret").
  - by apply (hashPassword_passthrough (crypto := Sample.crypto) defaultUser "").
Defined.

(** C4, as claimed, fails: the document below is reached by assignments and
    successful saves, it has a salt, and its password is empty, which is
    not the hash derived with that salt. *)
Lemma stale_salt_user_breaks_invariant :
  saved (crypto := Sample.crypto) stale_salt_user
  ∧ is_Some (salt stale_salt_user)
  ∧ password stale_salt_user = ""
  ∧ ¬ salt_hash_invariant (crypto := Sample.crypto) stale_salt_user.
Proof.
  destruct (salt_kept_without_hash (crypto := Sample.crypto)
              (sizes := SampleFacts.sizes) sample_rnd sample_rnd')
    as (Hsaved & Hsalt & Hpw & Hinv).
  split; [done|]. split; [by eexists|]. done.
Qed.

Lemma hashed_user_saved : saved (crypto := Sample.crypto) hashed_user.
Proof.
  apply (saved_intro (crypto := Sample.crypto)
           (run (crypto := Sample.crypto)
              [SetProvider "local"; SetUsername "alice"; SetFirstName "Alice";
               SetLastName "Liddell"; SetEmail "Alice@Example.com ";
               SetPassword "correcthorsebattery"] defaultUser)
           sample_rnd).
  - apply reachable_run, reachable_new.
  - by vm_compute.
Defined.

Lemma saved_salt_hash_witness :
  (salt hashed_user = None →
     ¬ ∃ s, derived_with (crypto := Sample.crypto) s (password hashed_user))
  ∧ (6 < String.length (password hashed_user) →
     ∃ s, salt hashed_user = Some s
          ∧ derived_with (crypto := Sample.crypto) s (password hashed_user))
  ∧ (salt_hash_invariant (crypto := Sample.crypto) hashed_user
     ∨ (is_Some (salt hashed_user)
        ∧ String.length (password hashed_user) ≤ 6)).
Proof.
  apply (saved_salt_hash (crypto := Sample.crypto) (sizes := SampleFacts.sizes)
           hashed_user hashed_user_saved).
Defined.

End CodecFacts.

(** * Further properties *)

(** ** The user name rule *)

Module UsernameRuleFacts.
Import Regex JsString JsStringFacts RegexFacts UsernameRegexFacts ValidatorFacts.

(** X1. For a local user, [validateUsername] accepts a name exactly when it
    has 3 to 32 characters of the class [a-z0-9.-_], is not an illegal
    username, and consists of a non-empty run of characters other than the
    dot followed by at most one dot: a dot can only be the last character. *)
Theorem validateUsername_local_iff (u : User) (s : string) :
  provider u = Some "local" →
  validateUsername u s = true ↔
    (3 ≤ String.length s ∧ String.length s ≤ 32)
    ∧ all_chars username_char s = true
    ∧ indexOf_found illegalUsernames s = false
    ∧ ∃ t, truthy t = true ∧ all_chars not_dot t = true
           ∧ (s = t ∨ s = t +:+ ".").
Proof.
  intros Hp. rewrite (validateUsername_local u s Hp).
  rewrite andb_true_iff, dotsRegex_spec.
  unfold validateUsername_documented.
  rewrite !andb_true_iff, !negb_true_iff, !Nat.leb_le. split.
  - intros [[[[[? ?] ?] ?] ?] ?]. done.
  - intros ([? ?] & ? & ? & Hd). split; [|done].
    split; [done|]. by apply dotsRegex_no_consecutive_dots, dotsRegex_spec.
Qed.

Lemma validateUsername_local_iff_witness :
  validateUsername local_user "john." = true ↔
    (3 ≤ String.length "john." ∧ String.length "john." ≤ 32)
    ∧ all_chars username_char "john." = true
    ∧ indexOf_found illegalUsernames "john." = false
    ∧ ∃ t, truthy t = true ∧ all_chars not_dot t = true
           ∧ ("john." = t ∨ "john." = t +:+ ".").
Proof. apply (validateUsername_local_iff local_user "john."). reflexivity. Defined.

Lemma indexOf_found_elem_of (xs : list string) (s : string) :
  indexOf_found xs s = true ↔ s ∈ xs.
Proof.
  unfold indexOf_found. rewrite existsb_exists. split.
  - intros (x & Hin%list_elem_of_In & ->%String.eqb_eq). done.
  - intros Hin. exists s. split; [by apply list_elem_of_In|apply String.eqb_refl].
Qed.

Lemma illegalUsernames_split (s : string) :
  s ∈ illegalUsernames ↔
    s ∈ effectiveIllegalUsernames ∨ s ∈ deadIllegalUsernames.
Proof.
  rewrite <- elem_of_app. split; intros Hin.
  - assert (Forall (λ x, x ∈ effectiveIllegalUsernames ++ deadIllegalUsernames)
              illegalUsernames) as Hall by (apply (bool_decide_unpack _); by vm_compute).
    by apply (proj1 (Forall_forall _ _) Hall).
  - assert (Forall (λ x, x ∈ illegalUsernames)
              (effectiveIllegalUsernames ++ deadIllegalUsernames)) as Hall
      by (apply (bool_decide_unpack _); by vm_compute).
    by apply (proj1 (Forall_forall _ _) Hall).
Qed.

Lemma usernameRegex_rejects_dead (s : string) :
  s ∈ deadIllegalUsernames → test usernameRegex s = false.
Proof.
  unfold deadIllegalUsernames. rewrite !elem_of_cons, elem_of_nil.
  intros [->|[->|[->|[->|[]]]]]; by vm_compute.
Qed.

(** X2. Seven of the 25 entries of [illegalUsernames] change nothing:
    three are duplicates and four can never be reached, since the
    character-class expression rejects them first. [validateUsername] is
    the same function with the 18 remaining entries; in particular the
    entry with a leading space does not ban the name [demo]. *)
Theorem validateUsername_effective_denylist (u : User) (s : string) :
  validateUsername u s =
    (provider_not_local u
     || ((truthy s && test usernameRegex s
          && negb (indexOf_found effectiveIllegalUsernames s))
         && test dotsRegex s))
  ∧ validateUsername local_user "demo" = true.
Proof.
  split; [|by vm_compute]. unfold validateUsername.
  destruct (test usernameRegex s) eqn:Hre; [|by rewrite !andb_false_r].
  assert (indexOf_found illegalUsernames s
          = indexOf_found effectiveIllegalUsernames s) as ->; [|done].
  apply eq_true_iff_eq. rewrite !indexOf_found_elem_of, illegalUsernames_split.
  split; [|by left]. intros [?|Hdead]; [done|].
  apply usernameRegex_rejects_dead in Hdead. congruence.
Qed.

Lemma username_char_plain (c : ascii) :
  username_char c = true → is_upper c = false ∧ is_white c = false.
Proof. destruct c as [[] [] [] [] [] [] [] []]; by vm_compute. Qed.

Lemma toLowerCase_plain (s : string) :
  all_chars (λ c, negb (is_upper c)) s = true → toLowerCase s = s.
Proof.
  induction s as [|c s IH]; [done|]. simpl.
  intros [Hc Hs]%andb_true_iff. apply negb_true_iff in Hc.
  unfold lower_char. by rewrite Hc, IH.
Qed.

Lemma trimStart_plain (s : string) :
  all_chars (λ c, negb (is_white c)) s = true → trimStart s = s.
Proof.
  destruct s as [|c s]; [done|]. simpl.
  intros [Hc _]%andb_true_iff. apply negb_true_iff in Hc. by rewrite Hc.
Qed.

Lemma trimEnd_plain (s : string) :
  all_chars (λ c, negb (is_white c)) s = true → trimEnd s = s.
Proof.
  induction s as [|c s IH]; [done|]. simpl.
  intros [Hc Hs]%andb_true_iff. apply negb_true_iff in Hc.
  rewrite (IH Hs), Hc. by destruct s.
Qed.

Lemma all_chars_impl (p q : ascii → bool) (s : string) :
  (∀ c, p c = true → q c = true) →
  all_chars p s = true → all_chars q s = true.
Proof.
  intros Hpq. induction s as [|c s IH]; [done|]. simpl.
  rewrite !andb_true_iff. intros [Hc Hs]. auto.
Qed.

Section Setter.
Context {crypto : Crypto}.

(** X3. A name that [validateUsername] accepts for a local user is left as
    it is by the setters of the [username] path ([lowercase], [trim]): it
    has no upper-case letter and no white space, so the stored name is the
    validated name. *)
Theorem validateUsername_accepts_normal_form (u : User) (s : string) :
  provider u = Some "local" →
  validateUsername u s = true →
  username (apply_op u (SetUsername s)) = Some s.
Proof.
  intros Hp Hv. apply (validateUsername_within_documented u s Hp) in Hv.
  unfold validateUsername_documented in Hv.
  rewrite !andb_true_iff in Hv. destruct Hv as [[[_ Hc] _] _].
  simpl. f_equal.
  rewrite toLowerCase_plain.
  - unfold trim. rewrite trimStart_plain, trimEnd_plain; [done|..];
      (eapply all_chars_impl; [|exact Hc]); intros c Hcc;
      apply username_char_plain in Hcc as [_ ->]; done.
  - eapply all_chars_impl; [|exact Hc]. intros c Hcc.
    by apply username_char_plain in Hcc as [-> _].
Qed.

End Setter.

Lemma validateUsername_accepts_normal_form_witness :
  username (apply_op (crypto := Sample.crypto) local_user (SetUsername "john."))
  = Some "john.".
Proof.
  apply (validateUsername_accepts_normal_form (crypto := Sample.crypto)
           local_user "john."); by vm_compute.
Defined.

End UsernameRuleFacts.

(** ** Normal forms of strings *)

Module NormalFormFacts.
Import JsString NormaliseFacts.

Lemma lower_char_idem (c : ascii) : lower_char (lower_char c) = lower_char c.
Proof. destruct c as [[] [] [] [] [] [] [] []]; reflexivity. Qed.

Lemma toLowerCase_idem (s : string) :
  toLowerCase (toLowerCase s) = toLowerCase s.
Proof.
  induction s as [|c s IH]; [done|]. simpl. by rewrite lower_char_idem, IH.
Qed.

Lemma trimStart_starts_clean (s : string) : starts_clean (trimStart s) = true.
Proof.
  induction s as [|c s IH]; [done|]. simpl.
  destruct (is_white c) eqn:Hc; [done|]. simpl. by rewrite Hc.
Qed.

Lemma trimStart_clean (s : string) : starts_clean s = true → trimStart s = s.
Proof.
  destruct s as [|c s]; [done|]. simpl.
  intros Hc%negb_true_iff. by rewrite Hc.
Qed.

Lemma trimEnd_starts_clean (s : string) :
  starts_clean s = true → starts_clean (trimEnd s) = true.
Proof.
  destruct s as [|c s]; [done|]. simpl. intros Hc.
  apply negb_true_iff in Hc as Hw. rewrite Hw.
  by destruct (trimEnd s).
Qed.

Lemma trimEnd_idem (s : string) : trimEnd (trimEnd s) = trimEnd s.
Proof.
  induction s as [|c s IH]; [done|]. simpl.
  destruct (trimEnd s) as [|d r] eqn:Hr.
  - destruct (is_white c) eqn:Hc; [done|]. simpl. by rewrite Hc.
  - simpl. simpl in IH. by rewrite IH.
Qed.

Lemma trim_idem (s : string) : trim (trim s) = trim s.
Proof.
  unfold trim.
  rewrite (trimStart_clean (trimEnd (trimStart s))).
  - apply trimEnd_idem.
  - apply trimEnd_starts_clean, trimStart_starts_clean.
Qed.

(** What the setters of the [email] path store is a fixed point of the
    normalisation the hook applies. *)
Lemma normalise_idem (s : string) :
  toLowerCase (trim (toLowerCase (trim s))) = toLowerCase (trim s).
Proof.
  by rewrite trim_toLowerCase, trim_idem, toLowerCase_idem.
Qed.

End NormalFormFacts.

(** ** More on the hook, [hashPassword] and [authenticate] *)

Module CodecExtraFacts.
Import JsString JsStringFacts NormaliseFacts NormalFormFacts ValidatorFacts CodecFacts.

Section Codec.
Context {crypto : Crypto}.

(** X4. The hook writes [salt], [password] and [emailHash] and nothing
    else: the names, the e-mail address, the user name, the provider and
    [updated] are as before. *)
Theorem pre_save_frame (rnd : Buffer) (u : User) :
  firstName (pre_save rnd u) = firstName u
  ∧ lastName (pre_save rnd u) = lastName u
  ∧ email (pre_save rnd u) = email u
  ∧ username (pre_save rnd u) = username u
  ∧ provider (pre_save rnd u) = provider u
  ∧ updated (pre_save rnd u) = updated u.
Proof. unfold pre_save. by destruct (_ && _). Qed.

Lemma salt_set_emailHash (h : option string) (u : User) :
  salt (set_emailHash h u) = salt u.
Proof. done. Qed.

Lemma password_set_emailHash (h : option string) (u : User) :
  password (set_emailHash h u) = password u.
Proof. done. Qed.






(** X7. A document without a usable salt whose password has at most 6
    characters goes through the hook with the password as it is, in
    clear, and [authenticate] then compares the candidate with that
    password character by character. *)
Theorem short_password_in_clear (rnd : Buffer) (u : User) :
  salt_truthy (salt u) = false →
  String.length (password u) ≤ 6 →
  password (pre_save rnd u) = password u
  ∧ ∀ candidate,
      authenticate (pre_save rnd u) candidate
      = String.eqb (password u) candidate.
Proof.
  intros Hsalt Hlen. rewrite (pre_save_not_hashing rnd u Hlen).
  split; [done|]. intros candidate.
  unfold authenticate, hashPassword.
  rewrite salt_set_emailHash, password_set_emailHash.
  destruct (salt u) as [s|]; [|done]. by rewrite Hsalt.
Qed.

(** X8. When the e-mail address was assigned through the setters of its
    path ([trim], [lowercase]), the normalisation in the hook changes
    nothing more: [emailHash] is the digest of the stored address
    itself. *)
Theorem emailHash_of_assigned_email (rnd : Buffer) (u : User) (v : string) :
  emailHash (pre_save rnd (apply_op u (SetEmail v)))
  = Some (md5_hex (email (apply_op u (SetEmail v)))).
Proof.
  unfold pre_save.
  destruct (_ && _); simpl; by rewrite normalise_idem.
Qed.

Section Sizes.
Context {sizes : CryptoSizes crypto}.

Lemma stored_hash_length (raw : string) (rnd : Buffer) :
  String.length (stored_hash raw rnd) = 88.
Proof. apply (derived_length (SaltBuffer rnd)). by exists raw. Qed.

(** X9. After the hook has hashed a password, [authenticate] rejects the
    empty candidate, and accepts any other candidate exactly when the key
    derived from it with the stored salt is the stored one. *)
Theorem authenticate_hashed (rnd : Buffer) (u : User) (raw : string) :
  6 < String.length raw →
  authenticate (pre_save rnd (set_password raw u)) "" = false
  ∧ ∀ candidate, candidate ≠ "" →
      authenticate (pre_save rnd (set_password raw u)) candidate
      = String.eqb (stored_hash raw rnd) (stored_hash candidate rnd).
Proof.
  intros Hlen. rewrite pre_save_hashing by done.
  unfold authenticate, hashPassword. simpl. split.
  - apply String.eqb_neq. intros Heq.
    pose proof (stored_hash_length raw rnd) as H88.
    unfold stored_hash in H88. by rewrite Heq in H88.
  - intros candidate Hc. by destruct candidate.
Qed.

(** X10. The hook hashes whatever the password path holds: a second run
    without a new password takes the stored hash for a raw password, so
    the document ends with the second salt and the hash of the first
    hash, and [authenticate] compares that with the hash of the raw
    password under the second salt. *)
Theorem pre_save_twice (rnd1 rnd2 : Buffer) (u : User) (raw : string) :
  6 < String.length raw →
  salt (pre_save rnd2 (pre_save rnd1 (set_password raw u)))
    = Some (SaltBuffer rnd2)
  ∧ password (pre_save rnd2 (pre_save rnd1 (set_password raw u)))
    = stored_hash (stored_hash raw rnd1) rnd2
  ∧ authenticate (pre_save rnd2 (pre_save rnd1 (set_password raw u))) raw
    = String.eqb (stored_hash (stored_hash raw rnd1) rnd2)
                 (stored_hash raw rnd2).
Proof.
  intros Hlen. rewrite (pre_save_hashing rnd1) by done.
  rewrite (pre_save_hashing rnd2).
  - unfold authenticate, hashPassword. simpl.
    split; [done|]. split; [done|].
    destruct raw; [simpl in Hlen; lia|done].
  - simpl. fold (stored_hash raw rnd1). rewrite stored_hash_length. lia.
Qed.

End Sizes.

End Codec.



Lemma short_password_in_clear_witness :
  password (pre_save (crypto := Sample.crypto) sample_rnd
              (set_password "secret" federated_user)) = "secret"
  ∧ ∀ candidate,
      authenticate (crypto := Sample.crypto)
        (pre_save (crypto := Sample.crypto) sample_rnd
           (set_password "secret" federated_user)) candidate
      = String.eqb "secret" candidate.
Proof.
  apply (short_password_in_clear (crypto := Sample.crypto) sample_rnd
           (set_password "secret" federated_user)); [reflexivity|simpl; lia].
Defined.

Lemma authenticate_hashed_witness :
  authenticate (crypto := Sample.crypto)
    (pre_save (crypto := Sample.crypto) sample_rnd
       (set_password "correcthorsebattery" federated_user)) "" = false
  ∧ ∀ candidate, candidate ≠ "" →
      authenticate (crypto := Sample.crypto)
        (pre_save (crypto := Sample.crypto) sample_rnd
           (set_password "correcthorsebattery" federated_user)) candidate
      = String.eqb
          (stored_hash (crypto := Sample.crypto) "correcthorsebattery" sample_rnd)
          (stored_hash (crypto := Sample.crypto) candidate sample_rnd).
Proof.
  apply (authenticate_hashed (crypto := Sample.crypto)
           (sizes := SampleFacts.sizes)). simpl. lia.
Defined.

Lemma pre_save_twice_witness :
  salt (pre_save (crypto := Sample.crypto) sample_rnd'
          (pre_save (crypto := Sample.crypto) sample_rnd
             (set_password "correcthorsebattery" federated_user)))
    = Some (SaltBuffer sample_rnd')
  ∧ password (pre_save (crypto := Sample.crypto) sample_rnd'
                (pre_save (crypto := Sample.crypto) sample_rnd
                   (set_password "correcthorsebattery" federated_user)))
    = stored_hash (crypto := Sample.crypto)
        (stored_hash (crypto := Sample.crypto) "correcthorsebattery" sample_rnd)
        sample_rnd'
  ∧ authenticate (crypto := Sample.crypto)
      (pre_save (crypto := Sample.crypto) sample_rnd'
         (pre_save (crypto := Sample.crypto) sample_rnd
            (set_password "correcthorsebattery" federated_user)))
      "correcthorsebattery"
    = String.eqb
        (stored_hash (crypto := Sample.crypto)
           (stored_hash (crypto := Sample.crypto) "correcthorsebattery" sample_rnd)
           sample_rnd')
        (stored_hash (crypto := Sample.crypto) "correcthorsebattery" sample_rnd').
Proof.
  apply (pre_save_twice (crypto := Sample.crypto) (sizes := SampleFacts.sizes)).
  simpl. lia.
Defined.

(** On the stand-in for [crypto] the two hashes differ: after the second
    save the raw password no longer authenticates. *)
Example authenticate_fails_after_second_save :
  authenticate (crypto := Sample.crypto)
    (pre_save (crypto := Sample.crypto) sample_rnd'
       (pre_save (crypto := Sample.crypto) sample_rnd
          (set_password "correcthorsebattery" federated_user)))
    "correcthorsebattery" = false.
Proof. by vm_compute. Qed.

End CodecExtraFacts.

(** ** More on the username allocator *)

Module AllocatorExtraFacts.
Import JsString JsStringFacts AllocatorFacts.











End AllocatorExtraFacts.

(** ** The e-mail expression *)

Module EmailRegexFacts.
Import Regex JsString JsStringFacts RegexFacts UsernameRegexFacts.

Lemma matches_anywhere (s : string) : matches (Star (Class any_char)) s.
Proof. apply matches_star_class. by induction s. Qed.

Lemma matches_plus_class (p : ascii → bool) (s : string) :
  matches (Plus (Class p)) s ↔ truthy s = true ∧ all_chars p s = true.
Proof.
  unfold Plus. split.
  - intros (a & t & -> & (c & -> & Hc)%matches_class_inv
            & Ht%matches_star_class)%matches_cat_inv.
    rewrite app_cons, app_nil_l. simpl. by rewrite Hc.
  - intros [Hs Ha]. destruct s as [|c s]; [done|].
    simpl in Ha. apply andb_true_iff in Ha as [Hc Ha].
    apply matches_class_cons; [done|]. by apply matches_star_class.
Qed.

Lemma matches_one (p : ascii → bool) (a : ascii) (s : string) :
  (∀ c, p c = true ↔ c = a) →
  matches (Class p) s ↔ s = String a "".
Proof.
  intros Hp. split.
  - intros (c & -> & Hc%Hp)%matches_class_inv. by subst.
  - intros ->. constructor. by apply Hp.
Qed.

(** X15. The expression [/.+\@.+\..+/] of the [email] path accepts exactly
    the strings that contain, somewhere, a non-empty part, an [@], a
    non-empty part, a dot and a non-empty part, where the three parts have
    no line terminator. *)
Theorem emailRegex_spec (s : string) :
  test emailRegex s = true ↔
    ∃ before a b c after,
      s = before +:+ a +:+ "@" +:+ b +:+ "." +:+ c +:+ after
      ∧ (truthy a = true ∧ all_chars dot_char a = true)
      ∧ (truthy b = true ∧ all_chars dot_char b = true)
      ∧ (truthy c = true ∧ all_chars dot_char c = true).
Proof.
  assert (∀ x, matches (Class is_at) x ↔ x = "@") as Hat.
  { intros x. apply matches_one. intros c. apply Ascii.eqb_eq. }
  assert (∀ x, matches (Class is_dot) x ↔ x = ".") as Hdot.
  { intros x. apply matches_one. intros c. apply Ascii.eqb_eq. }
  rewrite test_spec. unfold emailRegex. cbv zeta. split.
  - intros (before & s1 & -> & _ & H1)%matches_cat_inv.
    apply matches_cat_inv in H1 as (a & s2 & -> & Ha%matches_plus_class & H2).
    apply matches_cat_inv in H2 as (x & s3 & -> & ->%Hat & H3).
    apply matches_cat_inv in H3 as (b & s4 & -> & Hb%matches_plus_class & H4).
    apply matches_cat_inv in H4 as (y & s5 & -> & ->%Hdot & H5).
    apply matches_cat_inv in H5 as (c & after & -> & Hc%matches_plus_class & _).
    by exists before, a, b, c, after.
  - intros (before & a & b & c & after & -> & Ha & Hb & Hc).
    constructor; [apply matches_anywhere|].
    constructor; [by apply matches_plus_class|].
    constructor; [by apply Hat|].
    constructor; [by apply matches_plus_class|].
    constructor; [by apply Hdot|].
    constructor; [by apply matches_plus_class|apply matches_anywhere].
Qed.

End EmailRegexFacts.
